(** * Verification of scico: the ADMM driver, its subproblem solvers and
      the ASTRA tomographic projector.

    Sources: scico/optimize/admm.py (exports of the ADMM module),
    scico/linop/radon_astra.py (TomographicProjector).  The ADMM driver
    itself (scico/optimize/_admm.py, _admmaux.py) is not part of the
    sources at hand; it is modelled from the specification, as each
    definition below says. *)

From HB Require Import structures.
From mathcomp Require Import boot order algebra.
From Stdlib Require Import String Lia.

Set Implicit Arguments.
Unset Strict Implicit.
Unset Printing Implicit Defensive.

Import GRing.Theory Num.Theory.

(* ===================================================================== *)
(** ** The ADMM driver *)
(* ===================================================================== *)

Module ADMMDriver.

Section Driver.

(** The primal domain [X] and the output domain [Y] of the constraint
    operators, with the vector operations the driver uses. Scalars
    (penalty parameters, residual norms) are rationals. *)
Variables X Y : Type.
Variables (zeroX : X) (addX : X -> X -> X) (normX : X -> rat).
Variables (zeroY : Y) (addY subY : Y -> Y -> Y) (scaleY : rat -> Y -> Y).
Variable normY : Y -> rat.
Variable shape_of : X -> seq nat.

(** A constraint block: the linear operator [C_i] (forward and adjoint,
    with its declared input shape) and the proximal operator of its
    penalty functional [g_i]; [g_prox v s] is [prox_{s g_i}(v)]. *)
Record block := Block {
  C_fwd : X -> Y;
  C_adj : Y -> X;
  g_prox : Y -> rat -> Y;
  C_in_shape : seq nat
}.

(** The penalty parameter: a scalar or one value per block. *)
Inductive penalty :=
| RhoScalar of rat
| RhoPerBlock of seq rat.

(** The Iterate: primal [x], auxiliary [z_i] and scaled duals [u_i]. *)
Record iterate := Iterate {
  it_x : X;
  it_z : seq Y;
  it_u : seq Y
}.

(** One History record. *)
Record hist := Hist {
  h_iteration : nat;
  h_primal_residual : rat;
  h_dual_residual : rat
}.

(** What a callback sees: the driver's current state. *)
Record snapshot := Snapshot {
  s_iterate : iterate;
  s_itnum : nat;
  s_history : seq hist
}.

(** The subproblem solver contract:
    [solve(x_current, target_blocks, rho) -> x_new]. *)
Definition subproblem_solve := X -> seq Y -> seq rat -> X.

(** The configuration of [Construct]. *)
Record config := Config {
  f_input_shape : seq nat;
  constraint_blocks : seq block;
  rho : penalty;
  penalty_block_structured : bool;
  x0 : option X;
  subproblem_solver : subproblem_solve;
  maxiter : nat;
  callback : option (snapshot -> bool)
}.

(** A constructed driver. *)
Record driver := Driver {
  d_blocks : seq block;
  d_rho : seq rat;
  d_solver : subproblem_solve;
  d_maxiter : nat;
  d_callback : option (snapshot -> bool);
  d_state : snapshot
}.

Inductive error :=
| ConfigurationError of string.

(** Modelled from the spec: the ADMM constructor of scico/optimize/_admm.py
    (not in the sources). It validates (spec 4.1 and 7) that there is at
    least one constraint block, that a per-block [rho] has one entry per
    block, that [rho] (scalar or per-block) is strictly positive, that,
    if the penalty is block-structured, [x0]'s shape matches [f]'s input
    domain, and that every constraint operator's declared domain matches
    the shape of the starting Iterate; it raises ConfigurationError
    otherwise. It initialises [z_i = C_i x0] and [u_i = 0]. Without [x0]
    the start point is zero, of [f]'s input shape. *)
Definition rho_positive (p : penalty) : bool :=
  match p with
  | RhoScalar r => (0 < r)%R
  | RhoPerBlock l => all (fun r => (0 < r)%R) l
  end.

Definition rho_count_ok (p : penalty) (n : nat) : bool :=
  match p with
  | RhoScalar _ => true
  | RhoPerBlock l => size l == n
  end.

Definition block_rhos (p : penalty) (n : nat) : seq rat :=
  match p with
  | RhoScalar r => nseq n r
  | RhoPerBlock l => l
  end.

Definition x0_shape_ok (cfg : config) : bool :=
  match x0 cfg with
  | Some x => shape_of x == f_input_shape cfg
  | None => true
  end.

(** The shape of the starting Iterate. *)
Definition iterate_shape (cfg : config) : seq nat :=
  match x0 cfg with
  | Some x => shape_of x
  | None => f_input_shape cfg
  end.

Definition operator_shapes_ok (cfg : config) : bool :=
  all (fun b => C_in_shape b == iterate_shape cfg) (constraint_blocks cfg).

Definition start_point (cfg : config) : X :=
  match x0 cfg with
  | Some x => x
  | None => zeroX
  end.

Definition construct (cfg : config) : error + driver :=
  let blocks := constraint_blocks cfg in
  if size blocks < 1 then
    inl (ConfigurationError "at least one constraint block is required")
  else if ~~ rho_count_ok (rho cfg) (size blocks) then
    inl (ConfigurationError "rho must have one entry per constraint block")
  else if ~~ rho_positive (rho cfg) then
    inl (ConfigurationError "rho must be strictly positive")
  else if penalty_block_structured cfg && ~~ x0_shape_ok cfg then
    inl (ConfigurationError "x0 shape does not match the domain of f")
  else if ~~ operator_shapes_ok cfg then
    inl (ConfigurationError "constraint operator domain does not match the iterate shape")
  else
    let x := start_point cfg in
    inr (Driver blocks (block_rhos (rho cfg) (size blocks))
           (subproblem_solver cfg) (maxiter cfg) (callback cfg)
           (Snapshot (Iterate x [seq C_fwd b x | b <- blocks]
                              [seq zeroY | _ <- blocks])
                     0 [::])).

Definition dummy_block : block :=
  Block (fun _ => zeroY) (fun _ => zeroX) (fun v _ => v) [::].

(** Modelled from the spec: [ADMM.step] (one x/z/u update cycle):
    1. [x <- solve(x_prev, {z_i - u_i}, rho)];
    2. [z_i <- prox_{g_i/rho_i}(C_i x + u_i)];
    3. [u_i <- u_i + C_i x - z_i];
    4. append the primal residual [sum_i |C_i x - z_i|] and the dual
       residual [|sum_i C_i^T (rho_i (z_i - z_i_prev))|] to the history;
       increment the iteration counter. *)
Definition step (d : driver) : driver :=
  let s := d_state d in
  let it := s_iterate s in
  let idx := iota 0 (size (d_blocks d)) in
  let blk i := nth dummy_block (d_blocks d) i in
  let rho_i i := nth 0%R (d_rho d) i in
  let z_i i := nth zeroY (it_z it) i in
  let u_i i := nth zeroY (it_u it) i in
  let x' := d_solver d (it_x it) [seq subY (z_i i) (u_i i) | i <- idx]
                     [seq rho_i i | i <- idx] in
  let Cx i := C_fwd (blk i) x' in
  let z' := [seq g_prox (blk i) (addY (Cx i) (u_i i)) (rho_i i)^-1 | i <- idx] in
  let z'_i i := nth zeroY z' i in
  let u' := [seq addY (u_i i) (subY (Cx i) (z'_i i)) | i <- idx] in
  let primal := foldr (fun i acc => normY (subY (Cx i) (z'_i i)) + acc)%R 0%R idx in
  let dual := normX (foldr (fun i acc =>
                 addX (C_adj (blk i) (scaleY (rho_i i) (subY (z'_i i) (z_i i)))) acc)
                 zeroX idx) in
  Driver (d_blocks d) (d_rho d) (d_solver d) (d_maxiter d) (d_callback d)
    (Snapshot (Iterate x' z' u') (s_itnum s).+1
              (rcons (s_history s) (Hist (s_itnum s) primal dual))).

(** Modelled from the spec: the loop of [solve]: while the iteration
    counter is below [target], take a step, then hand the new state to
    the callback. The callback's calls are logged with their return
    values, which the loop does not look at. *)
Fixpoint loop_until (fuel target : nat) (cb : option (snapshot -> bool))
    (d : driver) (calls : seq (snapshot * bool)) : driver * seq (snapshot * bool) :=
  match fuel with
  | 0 => (d, calls)
  | fuel'.+1 =>
      if s_itnum (d_state d) < target then
        let d' := step d in
        let calls' :=
          match cb with
          | Some c => rcons calls (d_state d', c (d_state d'))
          | None => calls
          end in
        loop_until fuel' target cb d' calls'
      else (d, calls)
  end.

(** Modelled from the spec: [solve()] steps until [iteration == maxiter]
    and returns the final [x] (with the driver and the callback log). *)
Definition solve (d : driver) : X * driver * seq (snapshot * bool) :=
  let '(d', calls) :=
    loop_until (d_maxiter d - s_itnum (d_state d)) (d_maxiter d)
               (d_callback d) d [::] in
  (it_x (s_iterate (d_state d')), d', calls).

(** Modelled from the spec: [run(n)], a single call that loops [n] steps. *)
Definition run (n : nat) (d : driver) : driver :=
  (loop_until n (s_itnum (d_state d) + n) None d [::]).1.

(** Modelled from the spec: constructing the driver and solving; a
    ConfigurationError of the constructor is fatal and propagated to the
    caller as it is. *)
Definition construct_and_solve (cfg : config) : error + X :=
  match construct cfg with
  | inl e => inl e
  | inr d => inr (solve d).1.1
  end.

Definition with_callback (cfg : config) (cb : option (snapshot -> bool)) : config :=
  Config (f_input_shape cfg) (constraint_blocks cfg) (rho cfg)
    (penalty_block_structured cfg) (x0 cfg) (subproblem_solver cfg)
    (maxiter cfg) cb.

(** The Iterate invariant of the data model:
    [len(z) == len(u) == len(constraint_operators) == len(penalty_functionals)]. *)
Definition iterate_invariant (d : driver) : bool :=
  let it := s_iterate (d_state d) in
  [&& size (it_z it) == size [seq C_fwd b | b <- d_blocks d],
      size (it_u it) == size [seq C_fwd b | b <- d_blocks d]
    & size [seq C_fwd b | b <- d_blocks d] == size [seq g_prox b | b <- d_blocks d]].

(** Two drivers that differ at most in their callback. *)
Definition same_but_callback (d1 d2 : driver) : Prop :=
  [/\ d_blocks d1 = d_blocks d2, d_rho d1 = d_rho d2, d_solver d1 = d_solver d2,
      d_maxiter d1 = d_maxiter d2 & d_state d1 = d_state d2].

End Driver.

End ADMMDriver.

(** A concrete instance of the driver, on scalar iterates: [C = I],
    [g = 0] (its prox is the identity) and the subproblem solver of
    [f = 0] with one block, which returns the target [z - u]. *)
Module ADMMDemo.
Import ADMMDriver.

Definition rabs (r : rat) : rat := `|r|%R.
Definition rsub (a b : rat) : rat := (a - b)%R.
Definition scalar_shape (_ : rat) : seq nat := [::].

Definition demo_block : block rat rat :=
  Block (fun x => x) (fun y => y) (fun v _ => v) [::].

Definition demo_solver : subproblem_solve rat rat :=
  fun x targets _ => head x targets.

Definition demo_cfg (iters : nat) (cb : option (snapshot rat rat -> bool)) : config rat rat :=
  Config [::] [:: demo_block] (RhoScalar 1%R) false (Some (3%:R)%R) demo_solver iters cb.

Definition demo_drv (iters : nat) (cb : option (snapshot rat rat -> bool)) : driver rat rat :=
  Driver [:: demo_block] [:: 1%R] demo_solver iters cb
    (Snapshot (Iterate (3%:R)%R [:: (3%:R)%R] [:: 0%R]) 0 [::]).

(** A configuration with one constraint block but two per-block
    penalty parameters (both positive); [x0] is a scalar, as [f] and the
    block's operator expect. *)
Definition rho_count_mismatch_cfg : config rat rat :=
  Config [::] [:: demo_block] (RhoPerBlock [:: 1%R; 1%R]) false (Some (3%:R)%R)
    demo_solver 1 None.

(** A callback that always asks to continue. *)
Definition always_true (_ : snapshot rat rat) : bool := true.

End ADMMDemo.

(* ===================================================================== *)
(** ** The exports of scico/optimize/admm.py *)
(* ===================================================================== *)

Module ADMMExports.
Local Open Scope string_scope.

(** Modelled from the spec: the subproblem solver hierarchy of
    scico/optimize/_admmaux.py (not in the sources), as the tagged union
    {Generic, Linear, CircularConvolve, FBlockCircularConvolve,
    G0BlockCircularConvolve}. *)
Inductive subproblem_solver_variant :=
| Generic
| Linear
| CircularConvolve
| FBlockCircularConvolve
| G0BlockCircularConvolve.

(** The Python class implementing each variant. *)
Definition class_name (v : subproblem_solver_variant) : string :=
  match v with
  | Generic => "GenericSubproblemSolver"
  | Linear => "LinearSubproblemSolver"
  | CircularConvolve => "CircularConvolveSolver"
  | FBlockCircularConvolve => "FBlockCircularConvolveSolver"
  | G0BlockCircularConvolve => "G0BlockCircularConvolveSolver"
  end.

Definition all_variants : seq subproblem_solver_variant :=
  [:: Generic; Linear; CircularConvolve; FBlockCircularConvolve;
      G0BlockCircularConvolve].

(** Modelled from the spec: the shared base [SubproblemSolver]: a variant
    together with its [solve(x_current, target_blocks, rho) -> x_new]. *)
Record SubproblemSolver (X Y : Type) := MkSubproblemSolver {
  solver_variant : subproblem_solver_variant;
  solver_solve : ADMMDriver.subproblem_solve X Y
}.

(** [__all__] of scico/optimize/admm.py (lines 23-31); Rocq reserves
    identifiers that start with an underscore. *)
Definition all__ : seq string :=
  [:: "SubproblemSolver";
      "GenericSubproblemSolver";
      "LinearSubproblemSolver";
      "CircularConvolveSolver";
      "FBlockCircularConvolveSolver";
      "G0BlockCircularConvolveSolver";
      "ADMM"].

(** The names [from ._admmaux import ...] brings into the module
    (lines 13-20) and the one [from ._admm import ADMM] brings (line 21). *)
Definition imported_from_admmaux : seq string :=
  [:: "SubproblemSolver"; "GenericSubproblemSolver"; "LinearSubproblemSolver";
      "CircularConvolveSolver"; "FBlockCircularConvolveSolver";
      "G0BlockCircularConvolveSolver"].

Definition imported_from_admm : seq string := [:: "ADMM"].

End ADMMExports.

(* ===================================================================== *)
(** ** TomographicProjector (scico/linop/radon_astra.py) *)
(* ===================================================================== *)

Module RadonAstra.
Local Open Scope string_scope.

Inductive dtype := float32 | float64.

(** The ASTRA projector [__init__] creates. *)
Inductive projector_type := ProjLine | ProjCuda.

Inductive exn := ValueError of string.

(** Lines 109-115: the projector for the default device's platform
    [dev0.platform] and the [device] argument. *)
Definition select_projector (platform device : string) : exn + projector_type :=
  if String.eqb platform "cpu" || String.eqb device "cpu" then inr ProjLine
  else if String.eqb platform "gpu" &&
          (String.eqb device "gpu" || String.eqb device "auto") then inr ProjCuda
  else inl (ValueError ("Invalid device specified; got " ++ device ++ ".")).

(** What [__init__] hands to [LinearOperator.__init__] (lines 123-130),
    with the projector it created. *)
Record TomographicProjector := MkTomographicProjector {
  input_shape : seq nat;
  output_shape : nat * nat;
  input_dtype : dtype;
  output_dtype : dtype;
  detector_spacing : rat;
  det_count : nat;
  angles : seq rat;
  proj_type : projector_type
}.

Definition volume_geometry_error : string :=
  "volume_geometry must be the shape of the volume as a tuple of len 4 containing the volume geometry dimensions. Please see documentation for details.".

(** [TomographicProjector.__init__] (lines 52-130); [platform] is
    [jax.devices()[0].platform]. The ASTRA geometry calls are taken not
    to fail. *)
Definition TomographicProjector_init (platform : string) (input_shape : seq nat)
    (detector_spacing : rat) (det_count : nat) (angles : seq rat)
    (volume_geometry : option (seq rat)) (device : string)
    : exn + TomographicProjector :=
  let vol_ok :=
    match volume_geometry with
    | Some vg => size vg == 4
    | None => true
    end in
  if ~~ vol_ok then inl (ValueError volume_geometry_error)
  else
    match select_projector platform device with
    | inl e => inl e
    | inr pt =>
        inr (MkTomographicProjector input_shape (size angles, det_count)
               float32 float32 detector_spacing det_count angles pt)
    end.

(** Three projection angles used in the concrete instances. *)
Definition demo_angles : seq rat := [:: 0%R; 1%R; (2%:R)%R].

End RadonAstra.

(* ===================================================================== *)
(** ** The x-update of the Linear and CircularConvolve subproblem solvers *)
(* ===================================================================== *)

(** Signals of length [N = n.+1] are column vectors over a field [F]
    holding a primitive [N]-th root of unity [w] (over the complex
    numbers [w = exp(-2 pi i / N)], the root numpy's [fft] uses). *)
Module CircularConvolve.
Local Open Scope ring_scope.

Section Solvers.

Variable F : fieldType.
Variable n : nat.
Local Notation N := n.+1.
Local Notation vec := 'cV[F]_N.
Local Notation mat := 'M[F]_N.

(** The circular convolution by the kernel [h], [(C x)_j = sum_k h_(j-k) x_k],
    indices taken modulo [N]. *)
Definition circ (h : vec) : mat := \matrix_(j, k) h (j - k) 0.

(** The kernel of the adjoint [C^T] of [circ h]: [j |-> h_(-j)]. *)
Definition adj_kernel (h : vec) : vec := \col_j h (- j) 0.

(** The discrete Fourier transform [fftn] and its inverse [ifftn]. *)
Definition dftmx (w : F) : mat := \matrix_(k, j) w ^+ (k * j).
Definition idftmx (w : F) : mat := \matrix_(j, k) (N%:R^-1 * (w ^+ (j * k))^-1).
Definition fftn (w : F) (v : vec) : vec := dftmx w *m v.
Definition ifftn (w : F) (v : vec) : vec := idftmx w *m v.

(** Modelled from the spec: the quadratic data term of the solvers that
    exploit structure, [f(x) = (f_coef / 2) |A x - y|^2] with a circular
    convolution [A = circ f_kernel]; its Hessian is [f_coef A^T A]. *)
Record quadratic_f := QuadraticF {
  f_coef : F;
  f_kernel : vec;
  f_y : vec
}.

(** Modelled from the spec (section 4.2): the normal equations of the
    x-update, [(Hess f + sum_i rho_i C_i^T C_i) x = f_coef A^T y +
    sum_i rho_i C_i^T (z_i - u_i)], for circular convolutions
    [C_i = circ hs_i] and targets [z_i - u_i]. *)
Definition normal_lhs (f : quadratic_f) (hs : seq vec) (rho : seq F) : mat :=
  f_coef f *: ((circ (f_kernel f))^T *m circ (f_kernel f))
  + \sum_(i < size hs) rho`_i *: ((circ hs`_i)^T *m circ hs`_i).

Definition normal_rhs (f : quadratic_f) (hs : seq vec) (targets : seq vec)
    (rho : seq F) : vec :=
  f_coef f *: ((circ (f_kernel f))^T *m f_y f)
  + \sum_(i < size hs) rho`_i *: ((circ hs`_i)^T *m targets`_i).

(** Modelled from the spec: the Linear subproblem solver with a direct
    factorization, [x = A^-1 b] for the normal equations [A x = b]. *)
Definition linear_solve (f : quadratic_f) (hs : seq vec)
    (x_current : vec) (targets : seq vec) (rho : seq F) : vec :=
  invmx (normal_lhs f hs rho) *m normal_rhs f hs targets rho.

(** Modelled from the spec: the diagonal [CircularConvolveSolver]
    precomputes, [sum_i rho_i |C_i^|^2 + (diagonal of Hess f)], where
    [|C^|^2] is the DFT of the kernel of [C^T] times the DFT of the kernel
    of [C] (the squared modulus for a real kernel). *)
Definition lhs_diag (w : F) (f : quadratic_f) (hs : seq vec) (rho : seq F) : vec :=
  \col_k (f_coef f * fftn w (adj_kernel (f_kernel f)) k 0 * fftn w (f_kernel f) k 0
          + \sum_(i < size hs) rho`_i * fftn w (adj_kernel hs`_i) k 0 * fftn w hs`_i k 0).

(** Modelled from the spec: [CircularConvolveSolver.solve]: transform
    [b], divide elementwise by the precomputed diagonal, transform back. *)
Definition circular_convolve_solve (w : F) (f : quadratic_f) (hs : seq vec)
    (x_current : vec) (targets : seq vec) (rho : seq F) : vec :=
  let b_dft := fftn w (normal_rhs f hs targets rho) in
  ifftn w (\col_k (b_dft k 0 / lhs_diag w f hs rho k 0)).

End Solvers.

Arguments dftmx {F n} w.
Arguments idftmx {F n} w.

End CircularConvolve.

(** A concrete instance of the frequency-domain solver: signals of
    length 2 over the rationals, where [-1] is a primitive square root
    of unity, [f] with the identity kernel and one constraint block
    whose kernel is [[1; 1]]. *)
Module CircularConvolveDemo.
Import CircularConvolve.
Local Open Scope ring_scope.

Definition delta2 : 'cV[rat]_2 := \col_j (j == 0 :> 'I_2)%:R.
Definition ones2 : 'cV[rat]_2 := const_mx 1.
Definition demo_f : quadratic_f rat 1 := QuadraticF 1 delta2 ones2.

End CircularConvolveDemo.

(* ===================================================================== *)
(** ** The ASTRA objects TomographicProjector creates and deletes *)
(* ===================================================================== *)

Module RadonAstraRegistry.
Import RadonAstra.
Local Open Scope string_scope.

(** The configuration [fbp] hands to [astra.algorithm.create]
    (lines 181-185). *)
Record fbp_config := FBPConfig {
  cfg_type : string;
  cfg_reconstruction_data : nat;
  cfg_projector : nat;
  cfg_projection_data : nat;
  cfg_filter_type : string
}.

(** The objects ASTRA keeps under an integer id until they are deleted:
    projectors, 2D data objects (["-sino"] or ["-vol"]) and
    algorithms. *)
Inductive astra_obj :=
| AProjector of projector_type
| AData of string
| AAlgorithm of fbp_config.

(** ASTRA's object registry: the next id it hands out and the live
    objects, most recent first. *)
Record astra_reg := AstraReg {
  next_id : nat;
  live : seq (nat * astra_obj)
}.

(** Every ASTRA creator registers one new object under a fresh id. *)
Definition astra_create (o : astra_obj) (r : astra_reg) : nat * astra_reg :=
  (next_id r, AstraReg (next_id r).+1 ((next_id r, o) :: live r)).

(** [astra.data2d.delete] and [astra.algorithm.delete]. *)
Definition astra_delete (i : nat) (r : astra_reg) : astra_reg :=
  AstraReg (next_id r) [seq e <- live r | e.1 != i].

(** A registry whose live ids were all handed out already. *)
Definition reg_wf (r : astra_reg) : bool :=
  all (fun e => (e.1 < next_id r)%N) (live r).

(** A JAX or numpy array, by its shape and dtype (the contents ASTRA
    computes are not modelled). *)
Record array := Array {
  arr_shape : seq nat;
  arr_dtype : dtype
}.

(** The operator's [output_shape] as an array shape. *)
Definition sino_shape (p : TomographicProjector) : seq nat :=
  [:: (output_shape p).1; (output_shape p).2].

(** [_proj] (lines 132-144): [hcb.call] returns an array of the declared
    [(self.output_shape, self.output_dtype)]; on the host, [create_sino]
    registers the sinogram data object, which is then deleted.  The
    [writeable] flag of the host copy is not modelled. *)
Definition proj (p : TomographicProjector) (proj_id : nat) (x : array) (r : astra_reg)
    : array * astra_reg :=
  let (sid, r1) := astra_create (AData "-sino") r in
  (Array (sino_shape p) (output_dtype p), astra_delete sid r1).

(** [_bproj] (lines 146-155): as [_proj], with [create_backprojection]
    registering a volume data object and the declared result
    [(self.input_shape, self.input_dtype)]. *)
Definition bproj (p : TomographicProjector) (proj_id : nat) (y : array) (r : astra_reg)
    : array * astra_reg :=
  let (vid, r1) := astra_create (AData "-vol") r in
  (Array (input_shape p) (input_dtype p), astra_delete vid r1).

(** The default filter of [fbp]. *)
Definition default_filter_type : string := "Ram-Lak".

(** The ASTRA calls of [fbp] that can raise: [astra.create_projector]
    (line 174), [astra.data2d.create] of the sinogram, with the shape of
    the data handed to it (line 175), and of the reconstruction volume
    (line 178), [astra.algorithm.create] (line 188), [astra.algorithm.run]
    (line 189) and [astra.data2d.get] of the reconstruction (line 192). *)
Inductive astra_call :=
| CreateProjector of projector_type
| CreateData of string & seq nat
| CreateAlgorithm of fbp_config
| RunAlgorithm of fbp_config
| GetData of nat.

Section Fbp.

(** Which calls ASTRA completes and which it raises on (a sinogram of the
    wrong shape, an unknown filter type, an exhausted memory, ...) is
    left open; a call that raises registers nothing. *)
Variable astra_accepts : astra_call -> bool.

(** [fbp] (lines 157-201): a line projector, the sinogram and the
    reconstruction data objects and the FBP algorithm are registered,
    the algorithm is run, its result is read, and the algorithm and
    reconstruction objects are deleted; the declared result is
    [(self.input_shape, self.input_dtype)].  [None] is an exception
    raised inside [f], which [hcb.call] propagates; the objects
    registered up to it stay registered. *)
Definition fbp (p : TomographicProjector) (sino : array) (filter_type : string)
    (r : astra_reg) : option array * astra_reg :=
  if ~~ astra_accepts (CreateProjector ProjLine) then (None, r) else
  let (pid, r1) := astra_create (AProjector ProjLine) r in
  if ~~ astra_accepts (CreateData "-sino" (arr_shape sino)) then (None, r1) else
  let (sino_id, r2) := astra_create (AData "-sino") r1 in
  if ~~ astra_accepts (CreateData "-vol" (input_shape p)) then (None, r2) else
  let (rec_id, r3) := astra_create (AData "-vol") r2 in
  let cfg := FBPConfig "FBP" rec_id pid sino_id filter_type in
  if ~~ astra_accepts (CreateAlgorithm cfg) then (None, r3) else
  let (alg_id, r4) := astra_create (AAlgorithm cfg) r3 in
  if ~~ astra_accepts (RunAlgorithm cfg) then (None, r4) else
  if ~~ astra_accepts (GetData rec_id) then (None, r4) else
  (Some (Array (input_shape p) (input_dtype p)),
   astra_delete rec_id (astra_delete alg_id r4)).

End Fbp.

(** The objects [fbp] registers on a registry whose next id is [n], most
    recent first. *)
Definition fbp_created (n : nat) (filter_type : string) : seq (nat * astra_obj) :=
  [:: (n.+3, AAlgorithm (FBPConfig "FBP" n.+2 n n.+1 filter_type));
      (n.+2, AData "-vol"); (n.+1, AData "-sino"); (n, AProjector ProjLine)].

(** An ASTRA that refuses a sinogram whose shape is not the operator's
    output shape. *)
Definition sino_shape_checked (p : TomographicProjector) (c : astra_call) : bool :=
  match c with
  | CreateData kind sh => ~~ String.eqb kind "-sino" || (sh == sino_shape p)
  | _ => true
  end.

(** Concrete registries and operators for the instances below. *)
Definition demo_reg : astra_reg :=
  AstraReg 3 [:: (2, AData "-vol"); (0, AProjector ProjLine)].

Definition demo_op : TomographicProjector :=
  MkTomographicProjector [:: 4; 4] (3, 6) float32 float32 1%R 6 demo_angles ProjLine.

End RadonAstraRegistry.

(* ===================================================================== *)
(** ** Executing scico/optimize/admm.py *)
(* ===================================================================== *)

Module AdmmModuleExec.
Import ADMMExports.
Local Open Scope string_scope.

(** A class object: its [__name__] and its [__module__]. *)
Record pyclass := PyClass {
  cls_name : string;
  cls_module : string
}.

(** The objects, by id; module namespaces bind names to ids, so that two
    modules binding the same class share it. *)
Definition heap := nat -> pyclass.
Definition namespace := seq (string * nat).

Inductive pyexn :=
| ImportError of string
| AttributeError of string.

(** Name lookup in a namespace, the most recent binding first. *)
Fixpoint ns_lookup (ns : namespace) (k : string) : option nat :=
  match ns with
  | [::] => None
  | (k', v) :: t => if String.eqb k k' then Some v else ns_lookup t k
  end.

(** [from src import names]: binds each name in turn, raising
    ImportError at the first one [src] does not bind. *)
Fixpoint from_import (src : namespace) (names : seq string) (dst : namespace)
    : pyexn + namespace :=
  match names with
  | [::] => inr dst
  | k :: t =>
      match ns_lookup src k with
      | None => inl (ImportError ("cannot import name '" ++ k ++ "'"))
      | Some v => from_import src t ((k, v) :: dst)
      end
  end.

(** [obj.__module__ = m] on the object with id [i]. *)
Definition set_module (h : heap) (i : nat) (m : string) : heap :=
  fun j => if j == i then PyClass (cls_name (h i)) m else h j.

(** Lines 34-35: [for name in __all__:
    getattr(sys.modules[__name__], name).__module__ = __name__];
    [getattr] raises AttributeError on an unbound name. *)
Fixpoint set_modules (ns : namespace) (names : seq string) (m : string) (h : heap)
    : pyexn + heap :=
  match names with
  | [::] => inr h
  | k :: t =>
      match ns_lookup ns k with
      | None => inl (AttributeError ("module has no attribute '" ++ k ++ "'"))
      | Some i => set_modules ns t m (set_module h i m)
      end
  end.

(** [__name__] of the module. *)
Definition admm_name : string := "scico.optimize.admm".

(** Executing the module body (lines 10-35) from a fresh namespace, given
    the namespaces of [._admmaux] and [._admm]; [import sys] and the
    [__all__] binding itself are left out of the namespace. *)
Definition admm_module_exec (admmaux admm : namespace) (h : heap)
    : pyexn + (namespace * heap) :=
  match from_import admmaux imported_from_admmaux [::] with
  | inl e => inl e
  | inr ns1 =>
      match from_import admm imported_from_admm ns1 with
      | inl e => inl e
      | inr ns2 =>
          match set_modules ns2 all__ admm_name h with
          | inl e => inl e
          | inr h' => inr (ns2, h')
          end
      end
  end.

(** Concrete modules: [._admmaux] binds its six classes (ids 1-6) and a
    helper (id 0), [._admm] binds [ADMM] (id 7). *)
Definition demo_admmaux : namespace :=
  [:: ("SubproblemSolver", 1); ("GenericSubproblemSolver", 2);
      ("LinearSubproblemSolver", 3); ("CircularConvolveSolver", 4);
      ("FBlockCircularConvolveSolver", 5); ("G0BlockCircularConvolveSolver", 6);
      ("helper", 0)].

Definition demo_admm : namespace := [:: ("ADMM", 7)].

Definition demo_heap : heap := fun i => PyClass "C" "scico.optimize._admmaux".

Definition demo_exec_result : namespace * heap :=
  match admm_module_exec demo_admmaux demo_admm demo_heap with
  | inr res => res
  | inl _ => ([::], demo_heap)
  end.

End AdmmModuleExec.

(* ===================================================================== *)
(** ** Proofs about the ADMM driver *)
(* ===================================================================== *)

Module ADMMDriverProofs.
Import ADMMDriver.

Section Facts.

Variables X Y : Type.
Variables (zeroX : X) (addX : X -> X -> X) (normX : X -> rat).
Variables (zeroY : Y) (addY subY : Y -> Y -> Y) (scaleY : rat -> Y -> Y).
Variable normY : Y -> rat.
Variable shape_of : X -> seq nat.

Local Notation step := (@step X Y zeroX addX normX zeroY addY subY scaleY normY).
Local Notation construct := (@construct X Y zeroX zeroY shape_of).
Local Notation loop_until :=
  (@loop_until X Y zeroX addX normX zeroY addY subY scaleY normY).
Local Notation run := (@run X Y zeroX addX normX zeroY addY subY scaleY normY).
Local Notation solve := (@solve X Y zeroX addX normX zeroY addY subY scaleY normY).
Local Notation construct_and_solve :=
  (@construct_and_solve X Y zeroX addX normX zeroY addY subY scaleY normY shape_of).

Lemma step_itnum d :
  s_itnum (d_state (step d)) = (s_itnum (d_state d)).+1.
Proof. by []. Qed.

Lemma step_history d :
  size (s_history (d_state (step d))) = (size (s_history (d_state d))).+1.
Proof. by rewrite /= size_rcons. Qed.

Lemma iter_step_itnum n d :
  s_itnum (d_state (iter n step d)) = s_itnum (d_state d) + n.
Proof. by elim: n => [|n IH]; rewrite ?addn0 //= IH addnS. Qed.

Lemma iter_step_history n d :
  size (s_history (d_state (iter n step d))) = size (s_history (d_state d)) + n.
Proof. by elim: n => [|n IH]; rewrite ?addn0 //= size_rcons IH addnS. Qed.

(** The loop of [solve]/[run] takes exactly [fuel] steps when it starts
    [fuel] iterations below its target; the callback log holds the state
    after each step with the callback's answer. *)
Lemma loop_until_iter fuel target cb d calls :
  s_itnum (d_state d) + fuel = target ->
  loop_until fuel target cb d calls =
  (iter fuel step d,
   calls ++ match cb with
            | Some c => [seq (d_state (iter k.+1 step d), c (d_state (iter k.+1 step d)))
                        | k <- iota 0 fuel]
            | None => [::]
            end).
Proof.
elim: fuel d calls => [|fuel IH] d calls Ht.
  by case: cb => [c|]; rewrite /= cats0.
have Hlt : s_itnum (d_state d) < target by rewrite -Ht addnS ltnS leq_addr.
transitivity (loop_until fuel target cb (step d)
  (match cb with
   | Some c => rcons calls (d_state (step d), c (d_state (step d)))
   | None => calls
   end)); first by rewrite /= Hlt.
rewrite IH; first by rewrite step_itnum addSnnS.
rewrite iterSr; congr pair; clear IH Hlt Ht.
case: cb => [c|]; last by rewrite cats0.
have E : iota 0 fuel.+1 = 0 :: map succn (iota 0 fuel).
  by rewrite [LHS]/iota -/iota -[1]addn0 iotaDl; congr cons; apply: eq_map => k; rewrite add1n.
rewrite -cats1 -catA cat1s E map_cons -map_comp.
by congr (_ ++ (_ :: _)); apply: eq_map => k; rewrite [in RHS]/comp -iterSr.
Qed.

Lemma construct_inr cfg d :
  construct cfg = inr d ->
  d = Driver (constraint_blocks cfg)
             (block_rhos (rho cfg) (size (constraint_blocks cfg)))
             (subproblem_solver cfg) (maxiter cfg) (callback cfg)
             (Snapshot (Iterate (start_point zeroX cfg)
                                [seq C_fwd b (start_point zeroX cfg) | b <- constraint_blocks cfg]
                                [seq zeroY | _ <- constraint_blocks cfg])
                       0 [::]).
Proof. by rewrite /construct; do 5!case: ifP => // _; case=> <-. Qed.

Lemma step_same_but_callback d1 d2 :
  same_but_callback d1 d2 -> same_but_callback (step d1) (step d2).
Proof.
case: d1 => b r s m c st; case: d2 => b' r' s' m' c' st'.
by case=> /= <- <- <- <- <-.
Qed.

Lemma iter_same_but_callback n d1 d2 :
  same_but_callback d1 d2 -> same_but_callback (iter n step d1) (iter n step d2).
Proof. by move=> H; elim: n => [|n IH] //=; apply: step_same_but_callback. Qed.

Lemma step_invariant d : iterate_invariant (step d).
Proof. by rewrite /iterate_invariant /= !size_map size_iota !eqxx. Qed.


(** C1: for every valid configuration (one the constructor accepts) and
    every [n], [n] calls of [step()] reach the same driver as one
    [run(n)], and after either path the history holds exactly [n]
    records. *)
Theorem step_n_times_eq_run cfg d0 n :
  construct cfg = inr d0 ->
  [/\ iter n step d0 = run n d0,
      size (s_history (d_state (iter n step d0))) = n
    & size (s_history (d_state (run n d0))) = n].
Proof.
move=> /construct_inr Hd.
have Hr : run n d0 = iter n step d0.
  by rewrite /run (@loop_until_iter n _ None).
by rewrite Hr iter_step_history Hd.
Qed.

(** C2: with [maxiter = 0], [solve()] on a valid configuration with
    starting point [x0] returns [x0] unchanged and the history is empty. *)
Theorem solve_maxiter0_returns_x0 cfg d x :
  construct cfg = inr d -> maxiter cfg = 0 -> x0 cfg = Some x ->
  (solve d).1.1 = x /\ s_history (d_state (solve d).1.2) = [::].
Proof.
move=> /construct_inr -> Hm Hx.
by rewrite /solve /= Hm /start_point Hx.
Qed.

(** C3: on a valid configuration [solve()] performs exactly [maxiter]
    iterations; the callback, if any, is called once after each
    iteration (with the states after iterations [1..maxiter]); and the
    result does not depend on the callback or on what it returns. *)
Theorem solve_runs_maxiter_iterations cfg d :
  construct cfg = inr d ->
  [/\ s_itnum (d_state (solve d).1.2) = maxiter cfg,
      size (s_history (d_state (solve d).1.2)) = maxiter cfg,
      [seq s_itnum c.1 | c <- (solve d).2] =
        (if callback cfg is Some _ then iota 1 (maxiter cfg) else [::])
    & forall cb d', construct (with_callback cfg cb) = inr d' ->
        (solve d').1.1 = (solve d).1.1 /\
        d_state (solve d').1.2 = d_state (solve d).1.2].
Proof.
move=> Hc; have Hd := construct_inr Hc.
have Hsolve : forall d1, d_state d1 = d_state d -> d_maxiter d1 = maxiter cfg ->
    solve d1 = (it_x (s_iterate (d_state (iter (maxiter cfg) step d1))),
                iter (maxiter cfg) step d1,
                match d_callback d1 with
                | Some c => [seq (d_state (iter k.+1 step d1), c (d_state (iter k.+1 step d1)))
                            | k <- iota 0 (maxiter cfg)]
                | None => [::]
                end).
  move=> d1 Hs Hm; rewrite /solve Hs Hd /= subn0 Hm.
  by rewrite (@loop_until_iter (maxiter cfg) _ _ d1 [::]) // Hs Hd.
have Hm0 : d_maxiter d = maxiter cfg by rewrite Hd.
rewrite (Hsolve d erefl Hm0).
split.
- by rewrite iter_step_itnum Hd.
- by rewrite iter_step_history Hd.
- have Hcb : d_callback d = callback cfg by rewrite Hd.
  have H0 : s_itnum (d_state d) = 0 by rewrite Hd.
  rewrite Hcb; case: (callback cfg) => [c|] //.
  rewrite -map_comp -[in RHS](addn0 1) iotaDl; apply: eq_map => k.
  transitivity (s_itnum (d_state (iter k.+1 step d))); first by [].
  by rewrite iter_step_itnum H0 add0n add1n.
- move=> cb d' /construct_inr Hd'.
  have Hsame : same_but_callback d' d by rewrite Hd Hd'.
  have Hm' : d_maxiter d' = maxiter cfg by rewrite Hd'.
  have Hs' : d_state d' = d_state d by case: Hsame.
  rewrite (Hsolve d' Hs' Hm') /=.
  by have [_ _ _ _ ->] := iter_same_but_callback (maxiter cfg) Hsame.
Qed.

(** C4 (amended): construction fails with ConfigurationError exactly when
    there is no constraint block, or a per-block [rho] does not have one
    entry per block, or [rho] (scalar or some per-block entry) is not
    strictly positive, or the penalty is block-structured and [x0]'s
    shape does not match [f]'s input domain, or some constraint
    operator's declared domain does not match the shape of the starting
    Iterate; when it fails it yields no driver, and construct-then-solve
    returns that very error: it is fatal and not retried. *)
Theorem construct_error_iff cfg :
  ((exists e, construct cfg = inl e) <->
   [|| size (constraint_blocks cfg) < 1,
       ~~ rho_count_ok (rho cfg) (size (constraint_blocks cfg)),
       ~~ rho_positive (rho cfg),
       penalty_block_structured cfg && ~~ x0_shape_ok shape_of cfg
     | ~~ operator_shapes_ok shape_of cfg])
  /\ (forall e, construct cfg = inl e ->
        (forall d, construct cfg <> inr d) /\ construct_and_solve cfg = inl e).
Proof.
split; last first.
  move=> e He; split; first by move=> d; rewrite He.
  by rewrite /construct_and_solve He.
rewrite /construct.
do 5 (case: ifP => _ /=; first by split=> // _; eexists).
by split=> // -[e].
Qed.

(** C5: right after construction with starting point [x0], every block
    [i] has [z_i = C_i x0] and [u_i = 0] (and [x = x0]). *)
Theorem construct_initial_iterate cfg d x :
  construct cfg = inr d -> x0 cfg = Some x ->
  it_x (s_iterate (d_state d)) = x /\
  forall i, i < size (constraint_blocks cfg) ->
    nth zeroY (it_z (s_iterate (d_state d))) i
      = C_fwd (nth (dummy_block zeroX zeroY) (constraint_blocks cfg) i) x /\
    nth zeroY (it_u (s_iterate (d_state d))) i = zeroY.
Proof.
move=> /construct_inr -> Hx; rewrite /= /start_point Hx; split=> // i Hi.
by rewrite (nth_map (dummy_block zeroX zeroY)) // (nth_map (dummy_block zeroX zeroY)).
Qed.

(** C6: the invariant
    [len(z) == len(u) == len(constraint_operators) == len(penalty_functionals)]
    holds right after construction and after every number of steps. *)
Theorem iterate_invariant_preserved cfg d :
  construct cfg = inr d -> forall n, iterate_invariant (iter n step d).
Proof.
move=> /construct_inr Hd [|n]; last by rewrite iterS step_invariant.
by rewrite Hd /iterate_invariant /= !size_map !eqxx.
Qed.

End Facts.
End ADMMDriverProofs.

(** Concrete instances of the ADMM theorems. *)
Module ADMMWitnesses.
Import ADMMDriver ADMMDemo ADMMDriverProofs.

Local Notation cstr := (@construct rat rat 0%R 0%R scalar_shape).
Local Notation dstep := (@step rat rat 0%R +%R rabs 0%R +%R rsub *%R rabs).
Local Notation drun := (@run rat rat 0%R +%R rabs 0%R +%R rsub *%R rabs).
Local Notation dsolve := (@solve rat rat 0%R +%R rabs 0%R +%R rsub *%R rabs).

Lemma demo_construct n cb : cstr (demo_cfg n cb) = inr (demo_drv n cb).
Proof. by []. Qed.

Lemma step_n_times_eq_run_witness :
  cstr (demo_cfg 2 None) = inr (demo_drv 2 None) /\
  [/\ iter 2 dstep (demo_drv 2 None) = drun 2 (demo_drv 2 None),
      size (s_history (d_state (iter 2 dstep (demo_drv 2 None)))) = 2
    & size (s_history (d_state (drun 2 (demo_drv 2 None)))) = 2].
Proof.
have H : cstr (demo_cfg 2 None) = inr (demo_drv 2 None) by reflexivity.
split; first exact: H.
exact: (step_n_times_eq_run +%R rabs +%R rsub *%R rabs 2 H).
Defined.

Lemma solve_maxiter0_returns_x0_witness :
  [/\ cstr (demo_cfg 0 None) = inr (demo_drv 0 None),
      maxiter (demo_cfg 0 None) = 0, x0 (demo_cfg 0 None) = Some (3%:R)%R
    & (dsolve (demo_drv 0 None)).1.1 = (3%:R)%R /\
      s_history (d_state (dsolve (demo_drv 0 None)).1.2) = [::]].
Proof.
have H1 : cstr (demo_cfg 0 None) = inr (demo_drv 0 None) by reflexivity.
have H2 : maxiter (demo_cfg 0 None) = 0 by reflexivity.
have H3 : x0 (demo_cfg 0 None) = Some (3%:R)%R by reflexivity.
split; [exact: H1 | exact: H2 | exact: H3 |].
exact: (solve_maxiter0_returns_x0 +%R rabs +%R rsub *%R rabs H1 H2 H3).
Defined.

Lemma solve_runs_maxiter_iterations_witness :
  cstr (demo_cfg 3 (Some always_true)) = inr (demo_drv 3 (Some always_true)) /\
  [/\ s_itnum (d_state (dsolve (demo_drv 3 (Some always_true))).1.2) = 3,
      size (s_history (d_state (dsolve (demo_drv 3 (Some always_true))).1.2)) = 3,
      [seq s_itnum c.1 | c <- (dsolve (demo_drv 3 (Some always_true))).2] =
        iota 1 3
    & forall cb d', cstr (with_callback (demo_cfg 3 (Some always_true)) cb) = inr d' ->
        (dsolve d').1.1 = (dsolve (demo_drv 3 (Some always_true))).1.1 /\
        d_state (dsolve d').1.2 = d_state (dsolve (demo_drv 3 (Some always_true))).1.2].
Proof.
have H : cstr (demo_cfg 3 (Some always_true)) = inr (demo_drv 3 (Some always_true))
  by reflexivity.
split; first exact: H.
exact: (solve_runs_maxiter_iterations +%R rabs +%R rsub *%R rabs H).
Defined.

Lemma construct_initial_iterate_witness :
  [/\ cstr (demo_cfg 1 None) = inr (demo_drv 1 None),
      x0 (demo_cfg 1 None) = Some (3%:R)%R
    & it_x (s_iterate (d_state (demo_drv 1 None))) = (3%:R)%R /\
      forall i, i < size (constraint_blocks (demo_cfg 1 None)) ->
        nth 0%R (it_z (s_iterate (d_state (demo_drv 1 None)))) i
          = C_fwd (nth (dummy_block 0%R 0%R) (constraint_blocks (demo_cfg 1 None)) i) (3%:R)%R /\
        nth 0%R (it_u (s_iterate (d_state (demo_drv 1 None)))) i = 0%R].
Proof.
have H1 : cstr (demo_cfg 1 None) = inr (demo_drv 1 None) by reflexivity.
have H2 : x0 (demo_cfg 1 None) = Some (3%:R)%R by reflexivity.
split; [exact: H1 | exact: H2 |].
exact: (construct_initial_iterate H1 H2).
Defined.

Lemma iterate_invariant_preserved_witness :
  cstr (demo_cfg 2 None) = inr (demo_drv 2 None) /\
  forall n, iterate_invariant (iter n dstep (demo_drv 2 None)).
Proof.
have H : cstr (demo_cfg 2 None) = inr (demo_drv 2 None) by reflexivity.
split; first exact: H.
exact: (iterate_invariant_preserved +%R rabs +%R rsub *%R rabs H).
Defined.

(** C4 as stated fails: with one constraint block, two (positive)
    per-block penalty parameters and an [x0] of the right shape, none of
    the three listed conditions holds, yet the constructor raises
    ConfigurationError (invalid block count). *)
Lemma construct_error_iff_counterexample :
  ~ ((exists e, cstr rho_count_mismatch_cfg = inl e) <->
     [\/ size (constraint_blocks rho_count_mismatch_cfg) < 1,
         ~~ rho_positive (rho rho_count_mismatch_cfg)
       | ~~ x0_shape_ok scalar_shape rho_count_mismatch_cfg]).
Proof.
case=> H _.
have [e He] : exists e, cstr rho_count_mismatch_cfg = inl e by eexists; reflexivity.
by case: (H (ex_intro _ e He)).
Qed.

End ADMMWitnesses.

(* ===================================================================== *)
(** ** Proofs about the exports and the tomographic projector *)
(* ===================================================================== *)

Module ExportsProofs.
Import ADMMDriver ADMMExports.
Local Open Scope string_scope.

(** C8: the module exports the shared base [SubproblemSolver], then the
    five subproblem solver variants Generic, Linear, CircularConvolve,
    FBlockCircularConvolve, G0BlockCircularConvolve (each a distinct
    class, and no other variant) and [ADMM]; the export list is exactly
    what the module imports. Whatever its variant, a [SubproblemSolver]
    plugged into the driver is used only through the single contract
    [solve(x_current, target_blocks, rho)]: the x-update of a step is
    its [solve] applied to the current [x], the targets [z_i - u_i] of
    all blocks and their penalty parameters. *)
Theorem admm_exports_solver_hierarchy (X Y : Type) (zeroX : X) (addX : X -> X -> X)
    (normX : X -> rat) (zeroY : Y) (addY subY : Y -> Y -> Y) (scaleY : rat -> Y -> Y)
    (normY : Y -> rat) (S : SubproblemSolver X Y) (d : driver X Y) :
  d_solver d = solver_solve S ->
  [/\ all__ = "SubproblemSolver" :: cat [seq class_name v | v <- all_variants] [:: "ADMM"],
      all__ = cat imported_from_admmaux imported_from_admm,
      List.NoDup [seq class_name v | v <- all_variants],
      ~ List.In "SubproblemSolver" [seq class_name v | v <- all_variants]
    & forall v, List.In v all_variants] /\
  it_x (s_iterate (d_state (step zeroX addX normX zeroY addY subY scaleY normY d))) =
    solver_solve S (it_x (s_iterate (d_state d)))
      [seq subY (nth zeroY (it_z (s_iterate (d_state d))) i)
                (nth zeroY (it_u (s_iterate (d_state d))) i) | i <- iota 0 (size (d_blocks d))]
      [seq nth 0%R (d_rho d) i | i <- iota 0 (size (d_blocks d))].
Proof.
move=> HS; split; first split=> //.
- by repeat constructor; simpl; intuition discriminate.
- by simpl; intuition discriminate.
- by case; simpl; tauto.
- by rewrite /= HS.
Qed.

End ExportsProofs.

Module ExportsWitnesses.
Import ADMMDriver ADMMDemo ADMMExports ExportsProofs.

(** The demo driver, whose solver is a Linear [SubproblemSolver]. *)
Lemma admm_exports_solver_hierarchy_witness :
  d_solver (demo_drv 1 None) = solver_solve (@MkSubproblemSolver rat rat Linear demo_solver) /\
  it_x (s_iterate (d_state (step 0%R +%R rabs 0%R +%R rsub *%R rabs (demo_drv 1 None)))) =
    (3%:R)%R.
Proof.
have HS : d_solver (demo_drv 1 None) = solver_solve (@MkSubproblemSolver rat rat Linear demo_solver)
  by reflexivity.
split; first exact: HS.
have [_ ->] := @admm_exports_solver_hierarchy rat rat 0%R +%R rabs 0%R +%R rsub *%R rabs
  (@MkSubproblemSolver rat rat Linear demo_solver) (demo_drv 1 None) HS.
by vm_compute.
Defined.

End ExportsWitnesses.

Module RadonAstraProofs.
Import RadonAstra.
Local Open Scope string_scope.

Lemma eqb_refl_true (s : string) : String.eqb s s = true.
Proof. exact: String.eqb_refl. Qed.

Lemma eqb_false_ne (s t : string) : s <> t -> String.eqb s t = false.
Proof. by move=> H; apply/String.eqb_neq. Qed.

(** C9 (amended): on a CPU platform the line projector is chosen whatever
    [device] is; [device = "cpu"] always gives the line projector; on a
    GPU platform ["gpu"] and ["auto"] give the CUDA projector and any
    other device but ["cpu"] raises the "Invalid device" ValueError; on
    any other platform a device other than ["cpu"] and ["auto"] raises
    it. *)
Theorem select_projector_cases platform device :
  [/\ platform = "cpu" -> select_projector platform device = inr ProjLine,
      device = "cpu" -> select_projector platform device = inr ProjLine,
      platform = "gpu" -> device <> "cpu" ->
        select_projector platform device =
          if String.eqb device "gpu" || String.eqb device "auto" then inr ProjCuda
          else inl (ValueError ("Invalid device specified; got " ++ device ++ "."))
    & platform <> "cpu" -> platform <> "gpu" -> device <> "cpu" -> device <> "auto" ->
        select_projector platform device =
          inl (ValueError ("Invalid device specified; got " ++ device ++ "."))].
Proof.
rewrite /select_projector; split.
- by move=> ->.
- by move=> ->; rewrite orbT.
- by move=> -> /eqb_false_ne ->.
- move=> /eqb_false_ne -> /eqb_false_ne -> /eqb_false_ne -> /eqb_false_ne ->.
  by case: (String.eqb device "gpu").
Qed.

(** C10: whenever [__init__] succeeds, the operator declares the output
    shape [(len(angles), det_count)] and float32 input and output
    dtypes. *)
Theorem TomographicProjector_declared_shape platform in_shape spacing count angs vg device p :
  TomographicProjector_init platform in_shape spacing count angs vg device = inr p ->
  [/\ output_shape p = (size angs, count), input_dtype p = float32
    & output_dtype p = float32].
Proof.
rewrite /TomographicProjector_init; case: ifP => // _.
by case: select_projector => // pt [<-].
Qed.

End RadonAstraProofs.

Module RadonAstraWitnesses.
Import RadonAstra RadonAstraProofs.
Local Open Scope string_scope.

Lemma TomographicProjector_declared_shape_witness :
  TomographicProjector_init "cpu" [:: 4; 4] 1%R 6 demo_angles None "auto"
    = inr (MkTomographicProjector [:: 4; 4] (3, 6) float32 float32 1%R 6 demo_angles ProjLine)
  /\ [/\ output_shape (MkTomographicProjector [:: 4; 4] (3, 6) float32 float32 1%R 6
                         demo_angles ProjLine) = (size demo_angles, 6),
         input_dtype (MkTomographicProjector [:: 4; 4] (3, 6) float32 float32 1%R 6
                         demo_angles ProjLine) = float32
       & output_dtype (MkTomographicProjector [:: 4; 4] (3, 6) float32 float32 1%R 6
                         demo_angles ProjLine) = float32].
Proof.
have H : TomographicProjector_init "cpu" [:: 4; 4] 1%R 6 demo_angles None "auto"
    = inr (MkTomographicProjector [:: 4; 4] (3, 6) float32 float32 1%R 6 demo_angles ProjLine)
  by reflexivity.
split; first exact: H.
exact: (TomographicProjector_declared_shape H).
Defined.

(** C9 as stated fails: on a TPU platform with [device = "gpu"] the
    "Invalid device" ValueError is raised although the platform is not
    ["gpu"]. *)
Lemma select_projector_counterexample :
  ~ (forall platform device,
       (exists e, select_projector platform device = inl e) ->
       platform = "gpu" /\ ~ List.In device [:: "cpu"; "gpu"; "auto"]).
Proof.
move=> H.
have [Hp _] := H "tpu" "gpu" (ex_intro _ _ erefl).
discriminate Hp.
Qed.

End RadonAstraWitnesses.

(* ===================================================================== *)
(** ** The frequency-domain x-update equals the direct solve *)
(* ===================================================================== *)

Module CircularConvolveProofs.
Import CircularConvolve.
Local Open Scope ring_scope.

Section Facts.

Variable F : fieldType.
Variable n : nat.
Local Notation N := n.+1.
Local Notation vec := 'cV[F]_N.

Lemma expr_modN (u : F) i : u ^+ N = 1 -> u ^+ (i %% N) = u ^+ i.
Proof.
move=> uN; rewrite [in RHS](divn_eq i N) exprD mulnC exprM uN expr1n mul1r.
by [].
Qed.

Lemma expr_Zp_add (u : F) (a b : 'I_N) :
  u ^+ N = 1 -> u ^+ ((a + b)%R : 'I_N) = u ^+ a * u ^+ b.
Proof. by move=> uN; rewrite -exprD -[in RHS](expr_modN _ uN); congr (_ ^+ _). Qed.

Lemma circ_tr (h : vec) : (circ h)^T = circ (adj_kernel h).
Proof. by apply/matrixP => j k; rewrite !mxE opprB. Qed.

Variable w : F.
Hypothesis wN : w ^+ N = 1.

Lemma exprk_N (k : nat) : (w ^+ k) ^+ N = 1.
Proof. by rewrite exprAC wN expr1n. Qed.

(** The DFT diagonalises circular convolutions. *)
Lemma dft_circ (h : vec) :
  dftmx w *m circ h = diag_mx (fftn w h)^T *m dftmx w.
Proof.
apply/matrixP => k m; rewrite mul_diag_mx !mxE mulr_suml.
rewrite (reindex_inj (addIr m)) /=.
apply: eq_bigr => j _; rewrite !mxE addrK.
by rewrite !exprM expr_Zp_add ?exprk_N // mulrAC.
Qed.

Lemma dft_circ_tr (h : vec) :
  dftmx w *m (circ h)^T = diag_mx (fftn w (adj_kernel h))^T *m dftmx w.
Proof. by rewrite circ_tr dft_circ. Qed.

(** [W C^T C = diag(C^T^ * C^) W]. *)
Lemma dft_AtA (h : vec) :
  dftmx w *m ((circ h)^T *m circ h)
  = diag_mx (\row_k (fftn w (adj_kernel h) k 0 * fftn w h k 0)) *m dftmx w.
Proof.
rewrite mulmxA dft_circ_tr -mulmxA dft_circ mulmxA mulmx_diag.
by congr (diag_mx _ *m _); apply/rowP => k; rewrite !mxE.
Qed.

Lemma lhs_diag_row (f : quadratic_f F n) (hs : seq vec) (rho : seq F) :
  (lhs_diag w f hs rho)^T
  = f_coef f *: \row_k (fftn w (adj_kernel (f_kernel f)) k 0 * fftn w (f_kernel f) k 0)
    + \sum_(i < size hs) rho`_i *: \row_k (fftn w (adj_kernel hs`_i) k 0 * fftn w hs`_i k 0).
Proof.
apply/rowP => k; rewrite !mxE summxE mulrA.
by congr (_ + _); apply: eq_bigr => i _; rewrite !mxE mulrA.
Qed.

Lemma diag_mx_lin (a : F) (d : 'rV[F]_N) (m : nat) (e : 'I_m -> 'rV[F]_N) :
  diag_mx (a *: d + \sum_(i < m) e i) = a *: diag_mx d + \sum_(i < m) diag_mx (e i).
Proof.
apply/matrixP => j k; rewrite !mxE !summxE mulrnDl mulrnAr -sumrMnl.
by congr (_ + _); apply: eq_bigr => i _; rewrite !mxE.
Qed.

Lemma diag_mx_scale (a : F) (d : 'rV[F]_N) : diag_mx (a *: d) = a *: diag_mx d.
Proof. by apply/matrixP => j k; rewrite !mxE mulrnAr. Qed.

(** The DFT diagonalises the normal-equations operator, with the
    diagonal [CircularConvolveSolver] precomputes. *)
Lemma dft_lhs (f : quadratic_f F n) (hs : seq vec) (rho : seq F) :
  dftmx w *m normal_lhs f hs rho = diag_mx (lhs_diag w f hs rho)^T *m dftmx w.
Proof.
rewrite /normal_lhs lhs_diag_row mulmxDr -scalemxAr dft_AtA mulmx_sumr.
rewrite diag_mx_lin mulmxDl -scalemxAl mulmx_suml.
congr (_ + _); apply: eq_bigr => i _.
by rewrite -scalemxAr dft_AtA diag_mx_scale -scalemxAl.
Qed.

Hypothesis wprim : forall m, (0 < m < N)%N -> w ^+ m != 1.
Hypothesis NR : N%:R != 0 :> F.

Lemma w_neq0 : w != 0.
Proof.
apply/negP => /eqP w0; move: wN; rewrite w0 expr0n /= => /esym/eqP.
by rewrite oner_eq0.
Qed.

Lemma expw_inj (k l : 'I_N) : w ^+ k = w ^+ l -> k = l.
Proof.
have gen (a b : 'I_N) : (a < b)%N -> w ^+ a != w ^+ b.
  move=> ab; rewrite -(subnKC (ltnW ab)) exprD -[X in X != _]mulr1.
  rewrite (inj_eq (mulfI (expf_neq0 _ w_neq0))) eq_sym wprim //.
  by rewrite subn_gt0 ab (leq_ltn_trans (leq_subr a b) (ltn_ord b)).
move=> E; apply: val_inj; case: (ltngtP k l) => // H.
- by move: (gen _ _ H); rewrite E eqxx.
- by move: (gen _ _ H); rewrite E eqxx.
Qed.

(** [ifftn] inverts [fftn]. *)
Lemma dft_idft : @dftmx F n w *m idftmx w = 1%:M.
Proof.
apply/matrixP => k l; rewrite !mxE.
have wl0 : w ^+ l != 0 by rewrite expf_neq0 // w_neq0.
have -> : \sum_(j < N) dftmx w k j * idftmx w j l
          = \sum_(j < N) N%:R^-1 * (w ^+ k / w ^+ l) ^+ j.
  apply: eq_bigr => j _; rewrite !mxE exprMn exprVn exprM [(j * l)%N]mulnC exprM.
  by rewrite mulrCA.
rewrite -mulr_sumr; move: wl0; case: (eqVneq k l) => [<- wk0|kl wl0].
  rewrite divff //; under eq_bigr => j _ do rewrite expr1n.
  by rewrite sumr_const card_ord mulVf.
have v1 : w ^+ k / w ^+ l != 1.
  apply: contra_neq kl => /(congr1 (fun t => t * w ^+ l)); rewrite divfK // mul1r.
  exact: expw_inj.
have vN : (w ^+ k / w ^+ l) ^+ N = 1 by rewrite exprMn exprVn !exprk_N invr1 mulr1.
have : (w ^+ k / w ^+ l - 1) * \sum_(j < N) (w ^+ k / w ^+ l) ^+ j = 0.
  by rewrite -subrX1 vN subrr.
move/eqP; rewrite mulf_eq0 subr_eq0 (negPf v1) /= => /eqP ->.
by rewrite mulr0.
Qed.

Lemma idft_dft : @idftmx F n w *m dftmx w = 1%:M.
Proof. exact: mulmx1C dft_idft. Qed.

(** C7: for circular-convolution constraint operators and the same
    inputs ([x_current], target blocks, [rho]), the x-update of
    [CircularConvolveSolver] equals the x-update of the Linear solver with
    a direct factorization, whenever the system is nonsingular (no zero
    entry in the precomputed diagonal): the frequency-domain shortcut is
    exact. *)
Theorem circular_convolve_solve_eq_linear_solve (f : quadratic_f F n)
    (hs : seq vec) (x_current : vec) (targets : seq vec) (rho : seq F) :
  (forall k, lhs_diag w f hs rho k 0 != 0) ->
  circular_convolve_solve w f hs x_current targets rho
  = linear_solve f hs x_current targets rho.
Proof.
move=> d0.
set W := @dftmx F n w; set Wi := @idftmx F n w.
set d := lhs_diag w f hs rho.
set D := diag_mx d^T; set Di := diag_mx (\row_k (d k 0)^-1).
have DDi : D *m Di = 1%:M.
  rewrite mulmx_diag -diag_const_mx; congr diag_mx.
  by apply/rowP => k; rewrite !mxE; apply: mulfV; move: (d0 k); rewrite !mxE.
have Hlhs : normal_lhs f hs rho = Wi *m D *m W.
  by rewrite -mulmxA -dft_lhs mulmxA idft_dft mul1mx.
set b := normal_rhs f hs targets rho.
have Hcs : circular_convolve_solve w f hs x_current targets rho
           = Wi *m Di *m W *m b.
  rewrite /circular_convolve_solve /ifftn /fftn -!mulmxA; congr (_ *m _).
  by apply/colP => k; rewrite mul_diag_mx !mxE mulrC.
have Inv : Wi *m D *m W *m (Wi *m Di *m W) = 1%:M.
  rewrite -!mulmxA [W *m _]mulmxA dft_idft mul1mx [D *m _]mulmxA DDi mul1mx.
  exact: idft_dft.
have [U _] := mulmx1_unit Inv.
rewrite Hcs /linear_solve Hlhs -/b.
by rewrite -{2}[b]mul1mx -Inv -(mulmxA (Wi *m D *m W)) mulKmx.
Qed.

End Facts.
End CircularConvolveProofs.

(** Concrete instance of the frequency-domain solver theorem. *)
Module CircularConvolveWitnesses.
Import CircularConvolve CircularConvolveDemo CircularConvolveProofs.
Local Open Scope ring_scope.

Lemma circular_convolve_solve_eq_linear_solve_witness :
  [/\ (-1 : rat) ^+ 2 = 1,
      (forall m, (0 < m < 2)%N -> (-1 : rat) ^+ m != 1),
      (2%:R : rat) != 0,
      (forall k, lhs_diag (-1) demo_f [:: ones2] [:: 1] k 0 != 0)
    & circular_convolve_solve (-1) demo_f [:: ones2] ones2 [:: 0] [:: 1]
      = linear_solve demo_f [:: ones2] ones2 [:: 0] [:: 1]].
Proof.
have H1 : (-1 : rat) ^+ 2 = 1 by reflexivity.
have H2 : forall m, (0 < m < 2)%N -> (-1 : rat) ^+ m != 1 by case=> [|[|m]].
have H3 : (2%:R : rat) != 0 by [].
have H4 : forall k, lhs_diag (-1) demo_f [:: ones2] [:: 1] k 0 != 0.
  move=> k; rewrite /lhs_diag /fftn.
  do 4 rewrite ?mxE ?big_ord_recr ?big_ord0 /=.
  by case: k => [[|[|//]] Hk].
split; [exact: H1 | exact: H2 | exact: H3 | exact: H4 |].
exact: (circular_convolve_solve_eq_linear_solve H1 H2 H3 ones2 [:: 0] H4).
Defined.

End CircularConvolveWitnesses.

(* ===================================================================== *)
(** ** Proofs about TomographicProjector and the ASTRA registry *)
(* ===================================================================== *)

Module RadonAstraRegistryProofs.
Import RadonAstra RadonAstraRegistry.
Local Open Scope string_scope.

Lemma filter_fresh r k :
  reg_wf r -> (next_id r <= k)%N -> [seq e <- live r | e.1 != k] = live r.
Proof.
move=> Hwf Hk; apply/all_filterP; apply: sub_all Hwf => e /= He.
by rewrite neq_ltn (leq_trans He Hk).
Qed.

Lemma create_delete o r :
  reg_wf r ->
  astra_delete (astra_create o r).1 (astra_create o r).2 = AstraReg (next_id r).+1 (live r).
Proof.
move=> Hwf; rewrite /astra_delete /astra_create /= eqxx /=.
by rewrite filter_fresh.
Qed.

Lemma eqn_succF k :
  [/\ (k == k.+1) = false, (k == k.+2) = false & (k == k.+3) = false] /\
  [/\ (k.+1 == k) = false, (k.+2 == k) = false & (k.+3 == k) = false].
Proof.
have h1 : (k < k.+1)%N by exact: ltnSn.
have h2 : (k < k.+2)%N by exact: leqnSn.
have h3 : (k < k.+3)%N by exact: leqW (leqnSn _).
by rewrite (ltn_eqF h1) (ltn_eqF h2) (ltn_eqF h3) (gtn_eqF h1) (gtn_eqF h2) (gtn_eqF h3).
Qed.

(** X3: [_proj] and [_bproj] delete the data object ASTRA registers for
    their result: the live ASTRA objects are the same after the call as
    before. *)
Theorem proj_bproj_no_leak p proj_id x y r :
  reg_wf r ->
  [/\ live (proj p proj_id x r).2 = live r, reg_wf (proj p proj_id x r).2,
      live (bproj p proj_id y r).2 = live r & reg_wf (bproj p proj_id y r).2].
Proof.
move=> Hwf.
have Hp : (proj p proj_id x r).2 = AstraReg (next_id r).+1 (live r)
  by exact: (create_delete (AData "-sino") Hwf).
have Hb : (bproj p proj_id y r).2 = AstraReg (next_id r).+1 (live r)
  by exact: (create_delete (AData "-vol") Hwf).
have Hw : reg_wf (AstraReg (next_id r).+1 (live r))
  by apply: sub_all Hwf => e; apply: leqW.
by rewrite Hp Hb.
Qed.

(** Well-formedness of a registry grown by a few fresh ids, from [H]:
    every live id of the original registry is below any bound above its
    next id. *)
Ltac wf_solve H :=
  rewrite /reg_wf /=; repeat (apply/andP; split); try (apply/leP; lia);
  apply: H; apply/leP; lia.


End RadonAstraRegistryProofs.

(* ===================================================================== *)
(** ** Proofs about executing scico/optimize/admm.py *)
(* ===================================================================== *)

Module AdmmModuleExecProofs.
Import ADMMExports AdmmModuleExec.
Local Open Scope string_scope.

Lemma from_import_ok src names dst :
  (exists ns, from_import src names dst = inr ns) <->
  all (fun k => isSome (ns_lookup src k)) names.
Proof.
elim: names dst => [|k t IH] dst /=; first by split=> // _; exists dst.
case: (ns_lookup src k) => [v|] /=; first exact: IH.
by split=> // -[ns].
Qed.

Lemma from_import_lookup src names dst ns :
  from_import src names dst = inr ns ->
  forall k, ns_lookup ns k =
    if has (String.eqb k) names then ns_lookup src k else ns_lookup dst k.
Proof.
elim: names dst => [|a t IH] dst /=; first by move=> [->].
case Ha: (ns_lookup src a) => [v|] // /IH {}IH k.
rewrite IH /=.
case Hka: (String.eqb k a) => //=.
by move/String.eqb_eq: Hka => ->; rewrite Ha; case: has.
Qed.

Lemma set_modules_heap ns names m h h' :
  set_modules ns names m h = inr h' ->
  forall j, h' j =
    if has (fun k => ns_lookup ns k == Some j) names
    then PyClass (cls_name (h j)) m else h j.
Proof.
elim: names h => [|k t IH] h /=; first by move=> [->].
case Hk: (ns_lookup ns k) => [i|] // /IH {}IH j.
rewrite IH /set_module.
case: (eqVneq j i) => [->|nji]; first by rewrite !eqxx /=; case: has.
have -> : (Some i == Some j) = false.
  by apply/eqP => -[E]; move: nji; rewrite E eqxx.
by [].
Qed.

Lemma has_eqb_all (P : pred string) k l : all P l -> has (String.eqb k) l -> P k.
Proof.
elim: l => [|a l IH] //= /andP[Pa Pl] /orP[/String.eqb_eq -> //|].
exact: IH.
Qed.

Lemma has_eqb_has (q : pred string) k l : has (String.eqb k) l -> q k -> has q l.
Proof.
elim: l => [|a l IH] //= /orP[/String.eqb_eq <- ->//|Hl Hq].
by rewrite IH ?orbT.
Qed.

Lemma has_has_eqb (q : pred string) l : has q l -> exists k, has (String.eqb k) l /\ q k.
Proof.
elim: l => [|a l IH] //= /orP[Hq|/IH [k [Hk Hq]]].
- by exists a; rewrite String.eqb_refl.
- by exists k; rewrite Hk orbT.
Qed.

Lemma all__cat : all__ = cat imported_from_admmaux imported_from_admm.
Proof. by []. Qed.

Lemma has_admm k : has (String.eqb k) imported_from_admm = String.eqb k "ADMM".
Proof. by rewrite /= orbF. Qed.

(** The namespace the two imports build. *)
Lemma imports_lookup admmaux admm ns1 ns2 :
  from_import admmaux imported_from_admmaux [::] = inr ns1 ->
  from_import admm imported_from_admm ns1 = inr ns2 ->
  forall k, ns_lookup ns2 k =
    if String.eqb k "ADMM" then ns_lookup admm k
    else if has (String.eqb k) imported_from_admmaux then ns_lookup admmaux k
    else None.
Proof.
move=> E1 E2 k; rewrite (from_import_lookup E2) (from_import_lookup E1) /= orbF.
by case: (String.eqb k "ADMM"); case: (has (String.eqb k) imported_from_admmaux).
Qed.

Lemma imports_bound admmaux admm ns1 ns2 :
  from_import admmaux imported_from_admmaux [::] = inr ns1 ->
  from_import admm imported_from_admm ns1 = inr ns2 ->
  forall k, has (String.eqb k) all__ ->
  ns_lookup ns2 k = ns_lookup (if String.eqb k "ADMM" then admm else admmaux) k /\
  isSome (ns_lookup ns2 k).
Proof.
move=> E1 E2 k Hk.
have Haux := proj1 (from_import_ok _ _ _) (ex_intro _ _ E1).
have Hadm := proj1 (from_import_ok _ _ _) (ex_intro _ _ E2).
rewrite (imports_lookup E1 E2).
case Ek: (String.eqb k "ADMM").
- by move/String.eqb_eq: Ek => ->; move: Hadm => /= /andP[].
- move: Hk; rewrite all__cat has_cat has_admm Ek orbF => Hk.
  by rewrite Hk; split=> //; exact: (has_eqb_all Haux Hk).
Qed.

Lemma admm_module_exec_inv admmaux admm h ns h' :
  admm_module_exec admmaux admm h = inr (ns, h') ->
  exists ns1, [/\ from_import admmaux imported_from_admmaux [::] = inr ns1,
                 from_import admm imported_from_admm ns1 = inr ns
               & set_modules ns all__ admm_name h = inr h'].
Proof.
rewrite /admm_module_exec.
case E1: from_import => [//|ns1]; case E2: from_import => [//|ns2].
case E3: set_modules => [//|h''] [<- <-].
by exists ns1.
Qed.

(** X7: after the import, every name of [__all__] is bound to the very
    object [._admmaux] (or [._admm], for [ADMM]) binds it to, and that
    object now reports [__module__ = "scico.optimize.admm"], also when
    reached from [._admmaux] or [._admm]; its [__name__] is kept. *)
Theorem admm_exports_module_rewritten admmaux admm h ns h' :
  admm_module_exec admmaux admm h = inr (ns, h') ->
  forall k, has (String.eqb k) all__ ->
  exists i, [/\ ns_lookup ns k = Some i,
               ns_lookup (if String.eqb k "ADMM" then admm else admmaux) k = Some i
             & h' i = PyClass (cls_name (h i)) admm_name].
Proof.
move=> /admm_module_exec_inv [ns1 [E1 E2 E3]] k Hk.
have [Hsrc] := imports_bound E1 E2 Hk.
case Hl: (ns_lookup ns k) => [i|] // _.
exists i; split=> //; first by rewrite -Hsrc.
rewrite (set_modules_heap E3).
by rewrite (has_eqb_has (q := fun k => ns_lookup ns k == Some i) Hk) //= Hl.
Qed.

(** X8: objects that [._admmaux] and [._admm] do not bind under an
    exported name (a helper class of [._admmaux], say) are left as they
    were by the import. *)
Theorem admm_exec_other_objects admmaux admm h ns h' j :
  admm_module_exec admmaux admm h = inr (ns, h') ->
  all (fun k => ns_lookup admmaux k != Some j) imported_from_admmaux ->
  ns_lookup admm "ADMM" != Some j ->
  h' j = h j.
Proof.
move=> /admm_module_exec_inv [ns1 [E1 E2 E3]] Haux Hadm.
rewrite (set_modules_heap E3).
case: ifP => // /has_has_eqb [k [Hk /eqP Hq]].
have [Hsrc _] := imports_bound E1 E2 Hk.
move: Hsrc; rewrite Hq.
case Ek: (String.eqb k "ADMM").
- by move/String.eqb_eq: Ek => -> /esym/eqP; rewrite (negPf Hadm).
- move=> /esym/eqP; move: Hk; rewrite all__cat has_cat has_admm Ek orbF => Hk.
  by have /negPf -> := has_eqb_all Haux Hk.
Qed.

End AdmmModuleExecProofs.

(** Concrete instances of the TomographicProjector and admm.py
    theorems. *)
Module RadonAstraRegistryWitnesses.
Import RadonAstra RadonAstraRegistry RadonAstraRegistryProofs.
Local Open Scope string_scope.

Lemma proj_bproj_no_leak_witness :
  reg_wf demo_reg /\
  [/\ live (proj demo_op 0 (Array [:: 4; 4] float32) demo_reg).2 = live demo_reg,
      reg_wf (proj demo_op 0 (Array [:: 4; 4] float32) demo_reg).2,
      live (bproj demo_op 0 (Array [:: 3; 6] float32) demo_reg).2 = live demo_reg
    & reg_wf (bproj demo_op 0 (Array [:: 3; 6] float32) demo_reg).2].
Proof.
have H : reg_wf demo_reg by reflexivity.
split; first exact: H.
exact: (proj_bproj_no_leak demo_op 0 (Array [:: 4; 4] float32) (Array [:: 3; 6] float32) H).
Defined.


End RadonAstraRegistryWitnesses.

Module AdmmModuleExecWitnesses.
Import ADMMExports AdmmModuleExec AdmmModuleExecProofs.
Local Open Scope string_scope.

Lemma admm_exports_module_rewritten_witness :
  admm_module_exec demo_admmaux demo_admm demo_heap
    = inr (demo_exec_result.1, demo_exec_result.2) /\
  forall k, has (String.eqb k) all__ ->
  exists i, [/\ ns_lookup demo_exec_result.1 k = Some i,
               ns_lookup (if String.eqb k "ADMM" then demo_admm else demo_admmaux) k = Some i
             & demo_exec_result.2 i = PyClass (cls_name (demo_heap i)) admm_name].
Proof.
have H : admm_module_exec demo_admmaux demo_admm demo_heap
    = inr (demo_exec_result.1, demo_exec_result.2) by reflexivity.
split; first exact: H.
exact: (admm_exports_module_rewritten H).
Defined.

Lemma admm_exec_other_objects_witness :
  [/\ admm_module_exec demo_admmaux demo_admm demo_heap
        = inr (demo_exec_result.1, demo_exec_result.2),
      all (fun k => ns_lookup demo_admmaux k != Some 0) imported_from_admmaux,
      ns_lookup demo_admm "ADMM" != Some 0
    & demo_exec_result.2 0 = demo_heap 0].
Proof.
have H1 : admm_module_exec demo_admmaux demo_admm demo_heap
    = inr (demo_exec_result.1, demo_exec_result.2) by reflexivity.
have H2 : all (fun k => ns_lookup demo_admmaux k != Some 0) imported_from_admmaux
  by reflexivity.
have H3 : ns_lookup demo_admm "ADMM" != Some 0 by reflexivity.
split; [exact: H1 | exact: H2 | exact: H3 |].
exact: (admm_exec_other_objects H1 H2 H3).
Defined.

End AdmmModuleExecWitnesses.
